(** * Sharded client-side pagination: the worker and the pagination controller

    A shallow embedding of
      - [src/app/workers/data-worker.worker.ts]  (shardData, getShard and the
        message listener),
      - [src/app/components/grouped-input/grouped-input.component.ts]
        (the pagination controller),
      - the persistence gateway [DataStorageService] (addShard, getShard and
        its own shardData), and
      - the component's template [grouped-input.component.html],
    together with the properties stated about them.

    Numbers.  The TypeScript type [number] is modelled by [Z]: row ids,
    shard ids, shard sizes, page numbers and page sizes are integers.  On
    integers [Math.floor (a / b)] for [b > 0] is [a / b] of [Z], and
    [Math.ceil (a / b)] is [- ((- a) / b)].  The two quotients of a division
    by zero that the worker can meet ([Infinity] and [NaN]) are kept as
    values of [JsNum]. *)

From Stdlib Require Import String ZArith List Bool Lia.
Import ListNotations.
Local Open Scope Z_scope.

(** ** Data model: [models/sharded-input.model.ts] *)

Record InputRow := mkRow {
  id : Z;
  vmName : string;
  ipAddress : string;
  subnetMask : string;
  defaultGateway : string
}.

Record InputGroup := mkGroup {
  groupName : string;
  rows : list InputRow
}.

Record Shard := mkShard {
  shardId : Z;
  groups : list InputGroup
}.

Record ShardedInputGroups := mkSharded {
  totalRows : Z;
  shardSize : Z;
  shards : list Shard
}.

(** ** JavaScript primitives used by the worker *)

(** The result of a division whose divisor may be zero. *)
Inductive JsNum :=
| Finite (z : Z)
| Infinity
| NaN.

(** [Math.ceil (a / b)] for an array length [a] (so [0 <= a]) and an integer
    [b]: [a / 0] is [Infinity] for [a > 0] and [NaN] for [a = 0]. *)
Definition ceilDiv (a b : Z) : JsNum :=
  if b =? 0 then (if a =? 0 then NaN else Infinity)
  else Finite (- ((- a) / b)).

(** [ToIntegerOrInfinity] followed by the clamping of
    [Array.prototype.slice]: a negative index counts from the end. *)
Definition relIndex (len i : Z) : Z :=
  if i <? 0 then Z.max (len + i) 0 else Z.min i len.

(** [l.slice (start, end)]. *)
Definition slice {A : Type} (l : list A) (start fin : Z) : list A :=
  let len := Z.of_nat (length l) in
  let k := relIndex len start in
  let final := relIndex len fin in
  firstn (Z.to_nat (final - k)) (skipn (Z.to_nat k) l).

(** ** The worker: [workers/data-worker.worker.ts] *)

(** [groups.reduce ((acc, group) => [...acc, ...group.rows], [])] *)
Definition flattenRows (gs : list InputGroup) : list InputRow :=
  fold_left (fun acc group => acc ++ rows group) gs [].

(** [group.rows.some (gRow => gRow.id === row.id)] *)
Definition inGroup (group : InputGroup) (row : InputRow) : bool :=
  existsb (fun gRow => id gRow =? id row) (rows group).

(** [groups.map (group => ({groupName, rows: shardRows.filter (...)}))
          .filter (group => group.rows.length > 0)] *)
Definition shardGroups (gs : list InputGroup) (shardRows : list InputRow)
  : list InputGroup :=
  filter (fun group => 0 <? Z.of_nat (length (rows group)))
    (map (fun group =>
            mkGroup (groupName group) (filter (inGroup group) shardRows))
         gs).

(** The body of the [for] loop of [shardData], run [count] more times from
    [shardId] on; [acc] is the array [shards]. *)
Fixpoint shardLoop (gs : list InputGroup) (allRows : list InputRow)
    (size : Z) (count : nat) (sid : Z) (acc : list Shard) : list Shard :=
  match count with
  | O => acc
  | S count' =>
      let start := sid * size in
      let fin := start + size in
      let shardRows := slice allRows start fin in
      shardLoop gs allRows size count' (sid + 1)
        (acc ++ [mkShard sid (shardGroups gs shardRows)])
  end.

(** [shardData (groups, shardSize)].  The loop
    [for (shardId = 0; shardId < numberOfShards; shardId++)] runs
    [numberOfShards] times for a finite positive bound, not at all for a
    bound that is [<= 0] or [NaN], and never ends for [Infinity]: [None]. *)
Definition shardData (gs : list InputGroup) (size : Z) : option (list Shard) :=
  let allRows := flattenRows gs in
  let total := Z.of_nat (length allRows) in
  match ceilDiv total size with
  | Finite numberOfShards =>
      Some (shardLoop gs allRows size (Z.to_nat numberOfShards) 0 [])
  | NaN => Some []
  | Infinity => None
  end.

(** [getShard (shardId, shardSize, groups)] *)
Definition getShard (sid size : Z) (gs : list InputGroup) : Shard :=
  let start := sid * size in
  let fin := start + size in
  let shardRows := slice (flattenRows gs) start fin in
  mkShard sid (shardGroups gs shardRows).

(** The listener installed by [addEventListener ('message', ...)]. *)
Module Worker.

(** [data.payload]: the fields the two requests read.  A [getShard] request
    reads all three, a [shardData] request ignores [shardId]. *)
Record Payload := mkPayload {
  p_groups : list InputGroup;
  p_shardSize : Z;
  p_shardId : Z
}.

(** [data]: [payload] is [None] for a message that carries none. *)
Record Message := mkMessage {
  action : string;
  payload : option Payload
}.

(** The value handed to [postMessage]. *)
Inductive Result :=
| ShardList (l : list Shard)
| SingleShard (s : Shard)
| ErrorResult (error : string).

(** What one run of the listener does: it posts a result, throws (a field
    of an absent payload is read), or never returns (the partition loop
    does not end). *)
Inductive Outcome :=
| Posted (r : Result)
| Throws
| Diverges.

Definition onMessage (data : Message) : Outcome :=
  if String.eqb (action data) "shardData" then
    match payload data with
    | None => Throws
    | Some p =>
        match shardData (p_groups p) (p_shardSize p) with
        | Some l => Posted (ShardList l)
        | None => Diverges
        end
    end
  else if String.eqb (action data) "getShard" then
    match payload data with
    | None => Throws
    | Some p =>
        Posted (SingleShard
                  (getShard (p_shardId p) (p_shardSize p) (p_groups p)))
    end
  else Posted (ErrorResult "Unknown action").

End Worker.

(** ** The pagination controller: [grouped-input.component.ts]

    Every method is [async] and awaits the shard it loads; the embedding runs
    each call to completion before the next one starts.  The persistence
    gateway is the function [db] from a shard id to the stored shard, if any
    ([DataStorageService.getShard]).  A method returns the new state and the
    ids it passed to [loadShard], in order.  [shardedInputGroups.shardSize]
    is the divisor of the page arithmetic; the component initialises it to
    1000 and no method assigns it. *)
Module Controller.

Record State := mkState {
  shardedInputGroups : ShardedInputGroups;
  currentPage : Z;
  rowsPerPage : Z;
  currentShard : option Shard
}.

Definition Store := Z -> option Shard.

(** The field initialisers of the class. *)
Definition initial : State :=
  mkState (mkSharded 0 1000 []) 1 10 None.

Definition loadShard (db : Store) (sid : Z) (st : State) : State * list Z :=
  (mkState (shardedInputGroups st) (currentPage st) (rowsPerPage st)
           (db sid),
   [sid]).

Definition initialize (db : Store) (st : State) : State * list Z :=
  loadShard db 0 st.

(** [n !== this.currentShard?.shardId] *)
Definition differs (n : Z) (cur : option Shard) : bool :=
  match cur with
  | Some sh => negb (n =? shardId sh)
  | None => true
  end.

(** [Math.floor ((this.currentPage * this.rowsPerPage)
                 / this.shardedInputGroups.shardSize)] *)
Definition nextPageShardId (st : State) : Z :=
  (currentPage st * rowsPerPage st) / shardSize (shardedInputGroups st).

(** [Math.floor (((this.currentPage - 1) * this.rowsPerPage)
                 / this.shardedInputGroups.shardSize)] *)
Definition prevPageShardId (st : State) : Z :=
  ((currentPage st - 1) * rowsPerPage st)
  / shardSize (shardedInputGroups st).

Definition nextPage (db : Store) (st : State) : State * list Z :=
  let '(st1, loads) :=
    if differs (nextPageShardId st) (currentShard st)
    then loadShard db (nextPageShardId st) st
    else (st, []) in
  (mkState (shardedInputGroups st1) (currentPage st1 + 1) (rowsPerPage st1)
           (currentShard st1),
   loads).

Definition prevPage (db : Store) (st : State) : State * list Z :=
  if 1 <? currentPage st then
    let st1 :=
      mkState (shardedInputGroups st) (currentPage st - 1) (rowsPerPage st)
              (currentShard st) in
    if differs (prevPageShardId st1) (currentShard st1)
    then loadShard db (prevPageShardId st1) st1
    else (st1, [])
  else (st, []).

Definition setRowsPerPage (db : Store) (n : Z) (st : State)
  : State * list Z :=
  let st1 :=
    mkState (shardedInputGroups st) (currentPage st) n (currentShard st) in
  let st2 :=
    mkState (shardedInputGroups st1) 1 (rowsPerPage st1)
            (currentShard st1) in
  loadShard db 0 st2.

(** One method call, against whatever the store holds at that time. *)
Inductive step : State -> State -> Prop :=
| step_initialize db st : step st (fst (initialize db st))
| step_loadShard db sid st : step st (fst (loadShard db sid st))
| step_nextPage db st : step st (fst (nextPage db st))
| step_prevPage db st : step st (fst (prevPage db st))
| step_setRowsPerPage db n st : step st (fst (setRowsPerPage db n st)).

Inductive reachable : State -> Prop :=
| reach_initial : reachable initial
| reach_step st st' : reachable st -> step st st' -> reachable st'.

(** [k] successive calls of [nextPage]; the second component collects the
    loads of every call. *)
Fixpoint nextPages (db : Store) (k : nat) (st : State) : State * list Z :=
  match k with
  | O => (st, [])
  | S k' =>
      let '(st1, l1) := nextPage db st in
      let '(st2, l2) := nextPages db k' st1 in
      (st2, l1 ++ l2)
  end.

End Controller.

(** ** The persistence gateway: [DataStorageService]

    The object store 'input-shards' of the database is created with
    [keyPath: 'shardId']: [put] files a shard under its own [shardId] and
    replaces what was there, [get] returns the shard filed under a key, if
    any.  The store is the function from keys to stored shards. *)
Module Service.

Definition Db := Z -> option Shard.

(** The object store right after [createObjectStore]. *)
Definition emptyDb : Db := fun _ => None.

(** [addShard (shard)]: [db.put ('input-shards', shard)] *)
Definition addShard (db : Db) (shard : Shard) : Db :=
  fun key => if key =? shardId shard then Some shard else db key.

(** [getShard (shardId)]: [db.get ('input-shards', shardId)] *)
Definition getShard (db : Db) (sid : Z) : option Shard := db sid.

(** The body of the [for] loop of the service's [shardData], run [count]
    more times from [sid] on. *)
Fixpoint storeLoop (gs : list InputGroup) (allRows : list InputRow)
    (size : Z) (count : nat) (sid : Z) (db : Db) : Db :=
  match count with
  | O => db
  | S count' =>
      let start := sid * size in
      let fin := start + size in
      let shardRows := slice allRows start fin in
      let shard := mkShard sid (shardGroups gs shardRows) in
      storeLoop gs allRows size count' (sid + 1) (addShard db shard)
  end.

(** The service's [shardData (groups, shardSize)]: [None] when the loop
    never ends. *)
Definition shardData (db : Db) (gs : list InputGroup) (size : Z)
  : option Db :=
  let allRows := flattenRows gs in
  let total := Z.of_nat (length allRows) in
  match ceilDiv total size with
  | Finite numberOfShards =>
      Some (storeLoop gs allRows size (Z.to_nat numberOfShards) 0 db)
  | NaN => Some db
  | Infinity => None
  end.

(** A sequence of [addShard] calls. *)
Definition addShards (db : Db) (l : list Shard) : Db :=
  fold_left addShard l db.

(** Every key holds a shard of that id, or nothing. *)
Definition consistent (db : Db) : Prop :=
  forall key sh, db key = Some sh -> shardId sh = key.

End Service.

(** ** The template: [grouped-input.component.html]

    What the template shows for a state of the controller: nothing without a
    loaded shard ([*ngIf="currentShard"]); otherwise one table per group of
    the loaded shard with the rows [group.rows.slice (0, rowsPerPage)], and
    the two buttons with their [disabled] bindings. *)
Module Template.

Record View := mkView {
  tables : list (string * list InputRow);
  prevDisabled : bool;
  nextDisabled : bool
}.

Definition render (st : Controller.State) : option View :=
  match Controller.currentShard st with
  | None => None
  | Some sh =>
      Some (mkView
              (map (fun group =>
                      (groupName group,
                       slice (rows group) 0 (Controller.rowsPerPage st)))
                   (groups sh))
              (Controller.currentPage st =? 1)
              (totalRows (Controller.shardedInputGroups st)
               <=? Controller.currentPage st * Controller.rowsPerPage st))
  end.

End Template.

(** The id of the shard that holds the first row of the current page. *)
Definition pageShardId (st : Controller.State) : Z :=
  ((Controller.currentPage st - 1) * Controller.rowsPerPage st)
  / shardSize (Controller.shardedInputGroups st).

(** The loaded shard, if any, is the shard of the current page. *)
Definition synced (st : Controller.State) : Prop :=
  forall sh, Controller.currentShard st = Some sh -> shardId sh = pageShardId st.

(** ** Measures used in the statements *)

(** The shard [shardData] and [getShard] build for the id [sid] from the
    flattened rows [allRows]. *)
Definition shardAt (gs : list InputGroup) (allRows : list InputRow)
    (size sid : Z) : Shard :=
  mkShard sid (shardGroups gs (slice allRows (sid * size) (sid * size + size))).

(** Number of rows held by a list of groups, and by a list of shards. *)
Definition rowCount (gs : list InputGroup) : nat :=
  list_sum (map (fun g => length (rows g)) gs).

Definition shardsRowCount (l : list Shard) : nat :=
  list_sum (map (fun sh => rowCount (groups sh)) l).

(** Row ids are globally unique. *)
Definition uniqueIds (gs : list InputGroup) : Prop :=
  NoDup (map id (flattenRows gs)).

(** Some row of [l] has the id of [row]. *)
Definition hasId (l : list InputRow) (row : InputRow) : bool :=
  existsb (fun gRow => id gRow =? id row) l.

(** The ids [sid, sid + 1, ..., sid + n - 1] the loop goes through. *)
Definition idsFrom (sid : Z) (n : nat) : list Z :=
  map (fun i => sid + Z.of_nat i) (seq 0 n).

(** Every row of the input [gs] occurs in the shard [sh]. *)
Definition holdsAllRows (gs : list InputGroup) (sh : Shard) : Prop :=
  forall r, In r (flattenRows gs) -> In r (flattenRows (groups sh)).

(** [shardData] returns exactly one shard, and it holds all rows. *)
Definition oneShardOfAll (gs : list InputGroup) (size : Z) : Prop :=
  exists sh, shardData gs size = Some [sh] /\ holdsAllRows gs sh.

(** ** Sample data *)

Definition sampleRow (i : Z) : InputRow :=
  mkRow i "vm" "10.0.0.1" "255.255.255.0" "10.0.0.254".

(** Three groups of 4, 3 and 5 rows. *)
Definition sampleGroups : list InputGroup :=
  [ mkGroup "group1" (map sampleRow [0; 1; 2; 3]);
    mkGroup "group2" (map sampleRow [4; 5; 6]);
    mkGroup "group3" (map sampleRow [7; 8; 9; 10; 11]) ].

(** Five rows in two groups. *)
Definition fiveRows : list InputGroup :=
  [ mkGroup "a" (map sampleRow [10; 11]);
    mkGroup "b" (map sampleRow [12; 13; 14]) ].

(** A store that holds no shard, and one that holds an empty shard under
    every id. *)
Definition emptyStore : Controller.Store := fun _ => None.
Definition fullStore : Controller.Store := fun sid => Some (mkShard sid []).

(** The controller on page 1 with shard 0 loaded, and on page 101 with
    shard 1 loaded. *)
Definition firstPageState : Controller.State :=
  Controller.mkState (mkSharded 0 1000 []) 1 10 (Some (mkShard 0 [])).

Definition page101State : Controller.State :=
  Controller.mkState (mkSharded 0 1000 []) 101 10 (Some (mkShard 1 [])).

(** The controller on page 1 with a shard of three groups loaded, and a
    request without payload. *)
Definition loadedState : Controller.State :=
  Controller.mkState (mkSharded 0 1000 []) 1 10 (Some (mkShard 0 sampleGroups)).

Definition bareGetShardRequest : Worker.Message :=
  Worker.mkMessage "getShard" None.

(** A group list without any row, and a partition request of shard size 0. *)
Definition rowlessGroups : list InputGroup :=
  [ mkGroup "empty" [] ].

Definition zeroSizeRequest : Worker.Message :=
  Worker.mkMessage "shardData" (Some (Worker.mkPayload sampleGroups 0 0)).

(** The listener answers [data] with the error result for an unknown action,
    with a shard list for "shardData" and with a single shard for
    "getShard". *)
Definition repliesByAction (data : Worker.Message) : Prop :=
  (Worker.action data <> "shardData"%string ->
   Worker.action data <> "getShard"%string ->
   Worker.onMessage data
   = Worker.Posted (Worker.ErrorResult "Unknown action"))
  /\ (Worker.action data = "shardData"%string ->
      exists l, Worker.onMessage data = Worker.Posted (Worker.ShardList l))
  /\ (Worker.action data = "getShard"%string ->
      exists sh, Worker.onMessage data = Worker.Posted (Worker.SingleShard sh)).

(** Three requests to the worker. *)
Definition unknownRequest : Worker.Message :=
  Worker.mkMessage "reshard" None.

Definition shardDataRequest : Worker.Message :=
  Worker.mkMessage "shardData" (Some (Worker.mkPayload sampleGroups 5 0)).

Definition getShardRequest : Worker.Message :=
  Worker.mkMessage "getShard" (Some (Worker.mkPayload sampleGroups 5 1)).

(** Distinctness of the ids of a concrete input. *)
Ltac distinct_ids :=
  unfold uniqueIds; cbn;
  repeat (constructor; [cbn; intuition discriminate|]); constructor.

(** * Properties *)

(** ** Flattening *)

Lemma fold_rows_app (gs : list InputGroup) (acc : list InputRow) :
  fold_left (fun acc group => acc ++ rows group) gs acc
  = acc ++ flat_map rows gs.
Proof.
  revert acc; induction gs as [|g gs IH]; intros acc; simpl.
  - now rewrite app_nil_r.
  - now rewrite IH, app_assoc.
Qed.

Lemma flattenRows_flat_map (gs : list InputGroup) :
  flattenRows gs = flat_map rows gs.
Proof. unfold flattenRows. now rewrite fold_rows_app. Qed.

Lemma flattenRows_cons (g : InputGroup) (gs : list InputGroup) :
  flattenRows (g :: gs) = rows g ++ flattenRows gs.
Proof. now rewrite !flattenRows_flat_map. Qed.

(** ** [ceilDiv] is the ceiling of the quotient *)

Lemma ceilDiv_pos (a b : Z) :
  0 < b -> ceilDiv a b = Finite (- ((- a) / b)).
Proof.
  intros Hb. unfold ceilDiv.
  destruct (Z.eqb_spec b 0); [lia | reflexivity].
Qed.

Lemma ceil_bounds (a b : Z) :
  0 < b -> (- ((- a) / b) - 1) * b < a <= - ((- a) / b) * b.
Proof.
  intros Hb.
  pose proof (Z.div_mod (- a) b ltac:(lia)) as E.
  pose proof (Z.mod_pos_bound (- a) b Hb) as M.
  nia.
Qed.

(** ** [slice] *)

Lemma slice_nonneg {A : Type} (l : list A) (start fin : Z) :
  0 <= start -> 0 <= fin ->
  slice l start fin
  = firstn (Z.to_nat (Z.min fin (Z.of_nat (length l))
                      - Z.min start (Z.of_nat (length l))))
      (skipn (Z.to_nat (Z.min start (Z.of_nat (length l)))) l).
Proof.
  intros Hs Hf. unfold slice, relIndex.
  destruct (Z.ltb_spec start 0); [lia|].
  destruct (Z.ltb_spec fin 0); [lia|].
  reflexivity.
Qed.

Lemma slice_length {A : Type} (l : list A) (start fin : Z) :
  0 <= start <= fin ->
  Z.of_nat (length (slice l start fin))
  = Z.min fin (Z.of_nat (length l)) - Z.min start (Z.of_nat (length l)).
Proof.
  intros H. rewrite slice_nonneg by lia.
  rewrite length_firstn, length_skipn. lia.
Qed.

Lemma slice_beyond {A : Type} (l : list A) (start fin : Z) :
  Z.of_nat (length l) <= start -> 0 <= fin ->
  slice l start fin = [].
Proof.
  intros Hs Hf. rewrite slice_nonneg by lia.
  rewrite skipn_all2 by lia. now rewrite firstn_nil.
Qed.

Lemma slice_whole {A : Type} (l : list A) (fin : Z) :
  Z.of_nat (length l) <= fin -> slice l 0 fin = l.
Proof.
  intros Hf. rewrite slice_nonneg by lia.
  replace (Z.to_nat (Z.min 0 (Z.of_nat (length l)))) with O by lia.
  rewrite skipn_O. apply firstn_all2. lia.
Qed.

Lemma slice_incl {A : Type} (l : list A) (start fin : Z) (x : A) :
  In x (slice l start fin) -> In x l.
Proof.
  unfold slice. intros H.
  set (k := Z.to_nat _) in H. set (n := Z.to_nat _) in H.
  rewrite <- (firstn_skipn n l). apply in_or_app. right.
  rewrite <- (firstn_skipn k (skipn n l)). apply in_or_app. now left.
Qed.

(** ** The partition loop *)

Lemma idsFrom_S (sid : Z) (n : nat) :
  idsFrom sid (S n) = sid :: idsFrom (sid + 1) n.
Proof.
  unfold idsFrom. cbn [seq map]. rewrite <- seq_shift, map_map.
  f_equal; [lia|]. apply map_ext. intros i. lia.
Qed.

Lemma idsFrom_length (sid : Z) (n : nat) : length (idsFrom sid n) = n.
Proof. unfold idsFrom. now rewrite length_map, length_seq. Qed.

Lemma idsFrom_nth (sid : Z) (n i : nat) :
  (i < n)%nat -> nth_error (idsFrom sid n) i = Some (sid + Z.of_nat i).
Proof.
  intros Hi. unfold idsFrom.
  rewrite nth_error_map, nth_error_seq.
  destruct (Nat.ltb_spec i n); [reflexivity | lia].
Qed.

Lemma shardLoop_map gs allRows size n sid acc :
  shardLoop gs allRows size n sid acc
  = acc ++ map (shardAt gs allRows size) (idsFrom sid n).
Proof.
  revert sid acc; induction n as [|n IH]; intros sid acc.
  - simpl. now rewrite app_nil_r.
  - rewrite idsFrom_S. simpl. rewrite IH, <- app_assoc. reflexivity.
Qed.

Lemma getShard_shardAt sid size gs :
  getShard sid size gs = shardAt gs (flattenRows gs) size sid.
Proof. reflexivity. Qed.

(** For a positive shard size the partition ends, with one shard per id
    below the number of shards. *)
Lemma shardData_pos gs size :
  0 < size ->
  shardData gs size
  = Some (map (fun sid => getShard sid size gs)
            (idsFrom 0 (Z.to_nat
               (- ((- Z.of_nat (length (flattenRows gs))) / size))))).
Proof.
  intros Hs. unfold shardData. rewrite ceilDiv_pos by assumption.
  rewrite shardLoop_map. reflexivity.
Qed.

(** The partition fails to end only for the shard size 0 over rows. *)
Lemma shardData_None_iff gs size :
  shardData gs size = None <-> size = 0 /\ flattenRows gs <> [].
Proof.
  unfold shardData, ceilDiv.
  destruct (Z.eqb_spec size 0) as [E|E].
  - destruct (Z.eqb_spec (Z.of_nat (length (flattenRows gs))) 0) as [T|T].
    + split; [discriminate|]. intros [_ N].
      destruct (flattenRows gs); [now elim N | discriminate].
    + split; [|reflexivity]. intros _. split; [assumption|].
      intros N. rewrite N in T. now apply T.
  - split; [discriminate | intros [? _]; contradiction].
Qed.

(** ** Groups of a shard *)

Lemma shardGroups_nonempty gs w :
  Forall (fun g => rows g <> []) (shardGroups gs w).
Proof.
  unfold shardGroups. apply Forall_forall. intros g Hg.
  apply filter_In in Hg. destruct Hg as [_ Hlen].
  destruct (rows g); [discriminate | congruence].
Qed.

Lemma shardGroups_nil gs : shardGroups gs [] = [].
Proof.
  unfold shardGroups. induction gs as [|g gs IH]; simpl; auto.
Qed.

(** ** Locating one shard against the full partition *)

(** C1.  For a positive shard size and a shard id between 0 and
    ceil (totalRows / shardSize) - 1, the partition ends and its element at
    index [sid] is the shard [getShard] recomputes for [sid]. *)
Theorem getShard_is_shardData_nth gs size sid n :
  0 < size ->
  ceilDiv (Z.of_nat (length (flattenRows gs))) size = Finite n ->
  0 <= sid <= n - 1 ->
  exists l,
    shardData gs size = Some l
    /\ nth_error l (Z.to_nat sid) = Some (getShard sid size gs).
Proof.
  intros Hs Hn Hsid.
  rewrite ceilDiv_pos in Hn by assumption. injection Hn as Hn.
  eexists. split; [apply shardData_pos; assumption|].
  rewrite Hn, nth_error_map, idsFrom_nth by lia.
  simpl. do 2 f_equal. lia.
Qed.

(** C3.  No shard built by [shardData] or by [getShard] holds a group whose
    row list is empty, whatever the groups, the positive shard size and the
    shard id. *)
Theorem no_empty_group gs size sid :
  0 < size ->
  (exists l,
     shardData gs size = Some l
     /\ Forall (fun sh => Forall (fun g => rows g <> []) (groups sh)) l)
  /\ Forall (fun g => rows g <> []) (groups (getShard sid size gs)).
Proof.
  intros Hs. split.
  - eexists. split; [apply shardData_pos; assumption|].
    apply Forall_forall. intros sh Hsh.
    apply in_map_iff in Hsh. destruct Hsh as [k [<- _]].
    apply shardGroups_nonempty.
  - apply shardGroups_nonempty.
Qed.

(** C5.  For a positive shard size, a shard id at or beyond
    ceil (totalRows / shardSize) gives the shard with that id and no
    group. *)
Theorem getShard_beyond_range gs size sid n :
  0 < size ->
  ceilDiv (Z.of_nat (length (flattenRows gs))) size = Finite n ->
  n <= sid ->
  getShard sid size gs = mkShard sid [].
Proof.
  intros Hs Hn Hsid.
  rewrite ceilDiv_pos in Hn by assumption. injection Hn as Hn.
  pose proof (ceil_bounds (Z.of_nat (length (flattenRows gs))) size Hs) as B.
  rewrite Hn in B.
  unfold getShard. f_equal.
  rewrite slice_beyond; [apply shardGroups_nil | nia | nia].
Qed.

(** ** Counting rows *)

Lemma NoDup_app_disjoint {A : Type} (l1 l2 : list A) (a : A) :
  NoDup (l1 ++ l2) -> In a l1 -> In a l2 -> False.
Proof.
  induction l1 as [|x l1 IH]; simpl; intros N H1 H2; [contradiction|].
  inversion N as [|? ? Hx N']; subst.
  destruct H1 as [-> | H1].
  - apply Hx, in_or_app. now right.
  - now apply IH.
Qed.

Lemma hasId_In (l : list InputRow) (r : InputRow) :
  hasId l r = true <-> In (id r) (map id l).
Proof.
  unfold hasId. rewrite existsb_exists, in_map_iff. split.
  - intros [x [Hx E]]. exists x. split; [lia | assumption].
  - intros [x [E Hx]]. exists x. split; [assumption | lia].
Qed.

Lemma hasId_self (l : list InputRow) (r : InputRow) :
  In r l -> hasId l r = true.
Proof. intros H. apply hasId_In. now apply in_map. Qed.

Lemma hasId_app (l1 l2 : list InputRow) (r : InputRow) :
  hasId (l1 ++ l2) r = hasId l1 r || hasId l2 r.
Proof. apply existsb_app. Qed.

Lemma filter_or_length {A : Type} (p q : A -> bool) (w : list A) :
  (forall x, p x = true -> q x = true -> False) ->
  length (filter (fun x => p x || q x) w)
  = (length (filter p w) + length (filter q w))%nat.
Proof.
  intros D. induction w as [|x w IH]; simpl; [reflexivity|].
  specialize (D x).
  destruct (p x), (q x); simpl; rewrite IH; try lia.
Qed.

Lemma filter_all {A : Type} (p : A -> bool) (w : list A) :
  (forall x, In x w -> p x = true) -> filter p w = w.
Proof.
  induction w as [|x w IH]; simpl; intros H; [reflexivity|].
  rewrite (H x) by now left. f_equal. apply IH. intros y Hy. apply H. now right.
Qed.

Lemma filter_none {A : Type} (p : A -> bool) (w : list A) :
  (forall x, In x w -> p x = false) -> filter p w = [].
Proof.
  induction w as [|x w IH]; simpl; intros H; [reflexivity|].
  rewrite (H x) by now left. apply IH. intros y Hy. apply H. now right.
Qed.

Lemma rowCount_nonempty (l : list InputGroup) :
  rowCount (filter (fun group => 0 <? Z.of_nat (length (rows group))) l)
  = rowCount l.
Proof.
  unfold rowCount. induction l as [|g l IH]; simpl; [reflexivity|].
  destruct (Z.ltb_spec 0 (Z.of_nat (length (rows g)))); simpl; lia.
Qed.

(** With unique ids, the groups of a shard hold, between them, each row of
    the window whose id occurs in the input exactly once. *)
Lemma shardGroups_rowCount gs w :
  uniqueIds gs ->
  rowCount (shardGroups gs w) = length (filter (hasId (flattenRows gs)) w).
Proof.
  unfold shardGroups, uniqueIds. rewrite rowCount_nonempty.
  induction gs as [|g gs IH]; intros U.
  - simpl. rewrite filter_none; [reflexivity | reflexivity].
  - rewrite flattenRows_cons, map_app in U.
    unfold rowCount in *. simpl. rewrite IH by (eapply NoDup_app_remove_l; eauto).
    rewrite flattenRows_cons.
    rewrite (filter_ext (hasId (rows g ++ flattenRows gs))
               (fun r => inGroup g r || hasId (flattenRows gs) r))
      by (intros r; apply hasId_app).
    rewrite filter_or_length; [reflexivity|].
    intros r H1 H2. apply hasId_In in H1, H2.
    exact (NoDup_app_disjoint _ _ _ U H1 H2).
Qed.

Lemma shardAt_rowCount gs size sid :
  uniqueIds gs ->
  rowCount (groups (shardAt gs (flattenRows gs) size sid))
  = length (slice (flattenRows gs) (sid * size) (sid * size + size)).
Proof.
  intros U. simpl. rewrite shardGroups_rowCount by assumption.
  f_equal. apply filter_all. intros r Hr.
  apply hasId_self. eapply slice_incl; eauto.
Qed.

(** The windows of the first [n] ids cover the first [n * size] rows. *)
Lemma windows_length (rs : list InputRow) (size : Z) (n : nat) :
  0 < size ->
  Z.of_nat (list_sum
    (map (fun sid => length (slice rs (sid * size) (sid * size + size)))
         (idsFrom 0 n)))
  = Z.min (Z.of_nat n * size) (Z.of_nat (length rs)).
Proof.
  intros Hs. unfold idsFrom. induction n as [|n IH].
  - simpl. lia.
  - rewrite seq_S, !map_app, list_sum_app, Nat2Z.inj_add, IH.
    cbn [map list_sum fold_right Nat.add Z.add]. rewrite Nat.add_0_r.
    rewrite slice_length by nia. nia.
Qed.

(** ** A shard size larger than the input *)

Lemma shardGroups_keeps gs w r :
  In r w -> In r (flattenRows gs) -> In r (flattenRows (shardGroups gs w)).
Proof.
  intros Hw Hr. rewrite flattenRows_flat_map in *.
  apply in_flat_map in Hr. destruct Hr as [g [Hg Hrg]].
  assert (Hin : In r (filter (inGroup g) w)).
  { apply filter_In. split; [assumption | now apply hasId_self]. }
  apply in_flat_map.
  exists (mkGroup (groupName g) (filter (inGroup g) w)).
  split; [|exact Hin].
  unfold shardGroups. apply filter_In. split.
  - apply in_map_iff. now exists g.
  - simpl. destruct (filter (inGroup g) w); [contradiction | reflexivity].
Qed.

Lemma regroup_unique (pre : list InputRow) (gs : list InputGroup) :
  NoDup (map id (pre ++ flattenRows gs)) ->
  map (fun group =>
         mkGroup (groupName group)
                 (filter (inGroup group) (pre ++ flattenRows gs))) gs
  = gs.
Proof.
  revert pre; induction gs as [|g gs IH]; intros pre N; [reflexivity|].
  simpl map. rewrite flattenRows_cons in *. f_equal.
  - destruct g as [name rs]. simpl in *. f_equal.
    rewrite !map_app in N.
    rewrite !filter_app.
    rewrite (filter_none _ pre), (filter_all _ rs), (filter_none _ (flattenRows gs)).
    + now rewrite app_nil_r.
    + intros r Hr. destruct (inGroup _ r) eqn:E; [|reflexivity].
      apply hasId_In in E. simpl in E. exfalso.
      apply NoDup_app_remove_l in N.
      apply (NoDup_app_disjoint _ _ _ N E). now apply in_map.
    + intros r Hr. now apply hasId_self.
    + intros r Hr. destruct (inGroup _ r) eqn:E; [|reflexivity].
      apply hasId_In in E. simpl in E. exfalso.
      apply (NoDup_app_disjoint _ _ (id r) N); [now apply in_map|].
      apply in_or_app. now left.
  - rewrite app_assoc. apply IH. now rewrite <- app_assoc.
Qed.

Lemma shardGroups_whole gs :
  uniqueIds gs ->
  shardGroups gs (flattenRows gs)
  = filter (fun group => 0 <? Z.of_nat (length (rows group))) gs.
Proof.
  intros U. unfold shardGroups. f_equal.
  apply (regroup_unique [] gs). exact U.
Qed.

(** The partition of the sample: 12 rows in windows of 5. *)
Example shardData_sample :
  shardData sampleGroups 5
  = Some
      [ mkShard 0 [ mkGroup "group1" (map sampleRow [0; 1; 2; 3]);
                    mkGroup "group2" (map sampleRow [4]) ];
        mkShard 1 [ mkGroup "group2" (map sampleRow [5; 6]);
                    mkGroup "group3" (map sampleRow [7; 8; 9]) ];
        mkShard 2 [ mkGroup "group3" (map sampleRow [10; 11]) ] ].
Proof. reflexivity. Qed.

Example shardData_no_rows : shardData [] 5 = Some [].
Proof. reflexivity. Qed.

Example shardData_size_zero : shardData sampleGroups 0 = None.
Proof. reflexivity. Qed.

(** On the five-row sample the id -2 with shard size 2 selects the rows at
    positions 1 and 2, one from each group. *)
Example getShard_negative_sample :
  getShard (-2) 2 fiveRows
  = mkShard (-2) [ mkGroup "a" [sampleRow 11]; mkGroup "b" [sampleRow 12] ].
Proof. reflexivity. Qed.

(** C4, as stated, fails on the empty input: its row count 0 is below the
    shard size 1, and the partition has no shard at all. *)
Lemma oneShardOfAll_fails_on_empty_input :
  Z.of_nat (length (flattenRows [])) < 1 /\ ~ oneShardOfAll [] 1.
Proof.
  split; [reflexivity|].
  intros [sh [H _]]. discriminate H.
Qed.

(** C4, amended.  For a shard size above the row count of the input: an
    input with at least one row is partitioned into exactly one shard, with
    id 0, which holds every row of the input (with unique ids its groups are
    the groups of the input that have rows); an input with no rows is
    partitioned into zero shards. *)
Theorem shardData_size_above_rows gs size :
  Z.of_nat (length (flattenRows gs)) < size ->
  (flattenRows gs <> [] ->
   oneShardOfAll gs size
   /\ (exists gl, shardData gs size = Some [mkShard 0 gl])
   /\ (uniqueIds gs ->
       shardData gs size
       = Some [mkShard 0
                 (filter (fun group => 0 <? Z.of_nat (length (rows group)))
                         gs)]))
  /\ (flattenRows gs = [] -> shardData gs size = Some []).
Proof.
  intros Hlt. split.
  - intros Hne.
    assert (Hpos : 0 < Z.of_nat (length (flattenRows gs))).
    { destruct (flattenRows gs); [now elim Hne | simpl; lia]. }
    assert (E : shardData gs size
                = Some [mkShard 0 (shardGroups gs (flattenRows gs))]).
    { rewrite shardData_pos by lia.
      set (t := Z.of_nat (length (flattenRows gs))) in *.
      replace (- (- t / size)) with 1.
      - simpl. unfold getShard. simpl. now rewrite slice_whole by lia.
      - pose proof (ceil_bounds t size ltac:(lia)). nia. }
    split; [|split].
    + eexists. split; [exact E|].
      intros r Hr. simpl. now apply shardGroups_keeps.
    + eexists. exact E.
    + intros U. rewrite E. now rewrite shardGroups_whole.
  - intros Hnil. rewrite shardData_pos by (rewrite Hnil in Hlt; simpl in Hlt; lia).
    rewrite Hnil. reflexivity.
Qed.

(** ** The message listener *)

(** C8, as stated, fails on two messages with a known action: a "getShard"
    message without payload makes the listener throw, and a "shardData"
    message of shard size 0 over rows is never answered. *)
Lemma repliesByAction_fails_on_known_actions :
  ~ repliesByAction bareGetShardRequest /\ ~ repliesByAction zeroSizeRequest.
Proof.
  split; intros [_ [H1 H2]].
  - destruct (H2 eq_refl) as [sh E]. discriminate E.
  - destruct (H1 eq_refl) as [l E]. discriminate E.
Qed.

(** C8, amended.  A message whose action is neither "shardData" nor
    "getShard" is answered with the error result, payload or not; a
    "shardData" message with a payload whose shard size is not 0 or whose
    groups have no rows is answered with the shard list of [shardData]; a
    "getShard" message with a payload is answered with the shard of
    [getShard]. *)
Theorem onMessage_replies (data : Worker.Message) :
  (Worker.action data <> "shardData"%string ->
   Worker.action data <> "getShard"%string ->
   Worker.onMessage data
   = Worker.Posted (Worker.ErrorResult "Unknown action"))
  /\ (forall p,
        Worker.action data = "shardData"%string ->
        Worker.payload data = Some p ->
        Worker.p_shardSize p <> 0 \/ flattenRows (Worker.p_groups p) = [] ->
        exists l,
          shardData (Worker.p_groups p) (Worker.p_shardSize p) = Some l
          /\ Worker.onMessage data = Worker.Posted (Worker.ShardList l))
  /\ (forall p,
        Worker.action data = "getShard"%string ->
        Worker.payload data = Some p ->
        Worker.onMessage data
        = Worker.Posted
            (Worker.SingleShard
               (getShard (Worker.p_shardId p) (Worker.p_shardSize p)
                         (Worker.p_groups p)))).
Proof.
  unfold Worker.onMessage. repeat split.
  - intros H1 H2.
    apply String.eqb_neq in H1, H2. now rewrite H1, H2.
  - intros p Ha Hp Hs. rewrite Ha, Hp. simpl.
    destruct (shardData (Worker.p_groups p) (Worker.p_shardSize p))
      as [l|] eqn:E.
    + exists l. split; reflexivity.
    + apply shardData_None_iff in E. destruct E as [Z0 Hne].
      destruct Hs as [Hs | Hs]; contradiction.
  - intros p Ha Hp. rewrite Ha, Hp. reflexivity.
Qed.

(** ** The pagination controller *)

Module ControllerFacts.
Import Controller.

Lemma differs_spec (n : Z) (cur : option Shard) :
  differs n cur = true <-> option_map shardId cur <> Some n.
Proof.
  destruct cur as [sh|]; simpl.
  - rewrite negb_true_iff, Z.eqb_neq. split; congruence.
  - split; [discriminate | reflexivity].
Qed.

Lemma differs_false (n : Z) (cur : option Shard) :
  differs n cur = false <-> option_map shardId cur = Some n.
Proof.
  destruct cur as [sh|]; simpl.
  - rewrite negb_false_iff, Z.eqb_eq. split; congruence.
  - split; discriminate.
Qed.

(** [nextPage] while the next page still lies in the loaded shard. *)
Lemma nextPage_same_shard db st sh :
  currentShard st = Some sh ->
  nextPageShardId st = shardId sh ->
  nextPage db st
  = (mkState (shardedInputGroups st) (currentPage st + 1) (rowsPerPage st)
             (Some sh), []).
Proof.
  intros Hc Ht. unfold nextPage. rewrite Hc, Ht. simpl.
  rewrite Z.eqb_refl. simpl. now rewrite Hc.
Qed.

Lemma nextPages_within_shard_0 db sh k : forall st,
  rowsPerPage st = 10 ->
  shardSize (shardedInputGroups st) = 1000 ->
  currentShard st = Some sh ->
  shardId sh = 0 ->
  1 <= currentPage st ->
  currentPage st + Z.of_nat k <= 100 ->
  nextPages db k st
  = (mkState (shardedInputGroups st) (currentPage st + Z.of_nat k) 10
             (Some sh), []).
Proof.
  induction k as [|k IH]; intros st Hr Hs Hc Hi Hp Hk.
  - simpl. destruct st; simpl in *. subst.
    now rewrite Z.add_0_r.
  - cbn [nextPages].
    assert (Ht : nextPageShardId st = 0).
    { unfold nextPageShardId. rewrite Hr, Hs. apply Z.div_small. lia. }
    rewrite (nextPage_same_shard db st sh) by congruence.
    rewrite IH; simpl; try assumption; try reflexivity; try lia.
    do 2 f_equal. lia.
Qed.

Lemma step_keeps_page st st' :
  step st st' -> 1 <= currentPage st -> 1 <= currentPage st'.
Proof.
  intros S H. destruct S as [db st|db sid st|db st|db st|db n st]; simpl.
  - exact H.
  - exact H.
  - unfold nextPage.
    destruct (differs (nextPageShardId st) (currentShard st)); simpl; lia.
  - unfold prevPage. destruct (Z.ltb_spec 1 (currentPage st)); [|exact H].
    match goal with |- context [if ?b then _ else _] => destruct b end;
      simpl; lia.
  - lia.
Qed.

(** C6.  With 10 rows per page, a shard size of 1000, page 1 and shard 0
    loaded: each of the first 99 calls of [nextPage] computes the target
    id 0, loads nothing and leaves the loaded shard in place; the 100th
    call computes the target id 1 and loads shard 1. *)
Theorem nextPage_scenario_C db st sh :
  rowsPerPage st = 10 ->
  shardSize (shardedInputGroups st) = 1000 ->
  currentPage st = 1 ->
  currentShard st = Some sh ->
  shardId sh = 0 ->
  (forall k, (k < 99)%nat ->
     let s := fst (nextPages db k st) in
     nextPageShardId s = 0
     /\ snd (nextPage db s) = []
     /\ currentShard (fst (nextPage db s)) = Some sh)
  /\ snd (nextPages db 99 st) = []
  /\ (let s := fst (nextPages db 99 st) in
      nextPageShardId s = 1
      /\ snd (nextPage db s) = [1]
      /\ currentShard (fst (nextPage db s)) = db 1
      /\ currentPage (fst (nextPage db s)) = 101).
Proof.
  intros Hr Hs Hp Hc Hi. split; [|split].
  - intros k Hk.
    rewrite (nextPages_within_shard_0 db sh k st) by (assumption || lia).
    cbn zeta. cbn [fst].
    assert (Ht : nextPageShardId
                   (mkState (shardedInputGroups st)
                      (currentPage st + Z.of_nat k) 10 (Some sh)) = 0).
    { unfold nextPageShardId. simpl. rewrite Hs. apply Z.div_small. lia. }
    split; [exact Ht|].
    rewrite (nextPage_same_shard db _ sh) by (simpl; congruence).
    split; reflexivity.
  - rewrite (nextPages_within_shard_0 db sh 99 st) by (assumption || lia).
    reflexivity.
  - rewrite (nextPages_within_shard_0 db sh 99 st) by (assumption || lia).
    cbn zeta. cbn [fst]. unfold nextPage, nextPageShardId. simpl.
    rewrite Hs, Hp, Hi. simpl. repeat split.
Qed.

(** C7.  [prevPage] on a page at or below 1 changes nothing and loads
    nothing.  On a page above 1 it lowers the page by exactly one, keeps
    the page size, and loads the shard of id
    floor (((currentPage - 1) * rowsPerPage) / shardSize), taken at the
    lowered page, exactly when that id differs from the id of the loaded
    shard. *)
Theorem prevPage_spec db st :
  (currentPage st <= 1 -> prevPage db st = (st, []))
  /\ (1 < currentPage st ->
      shardSize (shardedInputGroups st) <> 0 ->
      let page := currentPage st - 1 in
      let target :=
        ((page - 1) * rowsPerPage st) / shardSize (shardedInputGroups st) in
      currentPage (fst (prevPage db st)) = page
      /\ rowsPerPage (fst (prevPage db st)) = rowsPerPage st
      /\ shardedInputGroups (fst (prevPage db st)) = shardedInputGroups st
      /\ (option_map shardId (currentShard st) <> Some target ->
          snd (prevPage db st) = [target]
          /\ currentShard (fst (prevPage db st)) = db target)
      /\ (option_map shardId (currentShard st) = Some target ->
          snd (prevPage db st) = []
          /\ currentShard (fst (prevPage db st)) = currentShard st)).
Proof.
  split.
  - intros H. unfold prevPage.
    destruct (Z.ltb_spec 1 (currentPage st)); [lia | reflexivity].
  - intros H _ page target. unfold prevPage.
    destruct (Z.ltb_spec 1 (currentPage st)); [|lia].
    unfold prevPageShardId. cbn [currentPage rowsPerPage shardedInputGroups
                                 currentShard].
    fold page. fold target.
    destruct (differs target (currentShard st)) eqn:D.
    + apply differs_spec in D. simpl. repeat split; intros; congruence.
    + apply differs_false in D. simpl. repeat split; intros; congruence.
Qed.

(** C10.  Every reachable state of the controller has a current page of
    at least 1: the initial page is 1 and no method call takes the page
    below 1. *)
Theorem currentPage_ge_1 st :
  reachable st -> 1 <= currentPage st.
Proof.
  induction 1 as [|st st' _ IH S].
  - simpl. lia.
  - eapply step_keeps_page; eauto.
Qed.

End ControllerFacts.

(** * Instances on the sample data *)

Lemma sampleGroups_uniqueIds : uniqueIds sampleGroups.
Proof. distinct_ids. Defined.

Lemma fiveRows_uniqueIds : uniqueIds fiveRows.
Proof. distinct_ids. Defined.

Lemma getShard_is_shardData_nth_sample :
  exists l,
    shardData sampleGroups 5 = Some l
    /\ nth_error l (Z.to_nat 1) = Some (getShard 1 5 sampleGroups).
Proof.
  apply (getShard_is_shardData_nth sampleGroups 5 1 3);
    [lia | reflexivity | lia].
Defined.

Lemma no_empty_group_sample :
  (exists l,
     shardData sampleGroups 5 = Some l
     /\ Forall (fun sh => Forall (fun g => rows g <> []) (groups sh)) l)
  /\ Forall (fun g => rows g <> []) (groups (getShard 1 5 sampleGroups)).
Proof. apply (no_empty_group sampleGroups 5 1). lia. Defined.

Lemma getShard_beyond_range_sample :
  getShard 3 5 sampleGroups = mkShard 3 [].
Proof.
  apply (getShard_beyond_range sampleGroups 5 3 3); [lia | reflexivity | lia].
Defined.

Lemma nextPage_scenario_C_firstPage :
  (forall k, (k < 99)%nat ->
     let s := fst (Controller.nextPages fullStore k firstPageState) in
     Controller.nextPageShardId s = 0
     /\ snd (Controller.nextPage fullStore s) = []
     /\ Controller.currentShard (fst (Controller.nextPage fullStore s))
        = Some (mkShard 0 []))
  /\ snd (Controller.nextPages fullStore 99 firstPageState) = []
  /\ (let s := fst (Controller.nextPages fullStore 99 firstPageState) in
      Controller.nextPageShardId s = 1
      /\ snd (Controller.nextPage fullStore s) = [1]
      /\ Controller.currentShard (fst (Controller.nextPage fullStore s))
         = fullStore 1
      /\ Controller.currentPage (fst (Controller.nextPage fullStore s)) = 101).
Proof.
  apply (ControllerFacts.nextPage_scenario_C fullStore firstPageState
           (mkShard 0 [])); reflexivity.
Defined.

Lemma prevPage_spec_sample :
  Controller.prevPage emptyStore Controller.initial = (Controller.initial, [])
  /\ Controller.currentPage (fst (Controller.prevPage fullStore page101State))
     = 100
  /\ snd (Controller.prevPage fullStore page101State) = [0].
Proof.
  split; [|split].
  - apply (proj1 (ControllerFacts.prevPage_spec emptyStore Controller.initial)).
    simpl. lia.
  - apply (proj2 (ControllerFacts.prevPage_spec fullStore page101State));
      simpl; lia.
  - apply (proj2 (ControllerFacts.prevPage_spec fullStore page101State));
      simpl; [lia | lia | discriminate].
Defined.

Lemma currentPage_ge_1_after_prevPage :
  1 <= Controller.currentPage
         (fst (Controller.prevPage emptyStore
                 (fst (Controller.setRowsPerPage emptyStore 25
                         (fst (Controller.nextPage emptyStore
                                 Controller.initial)))))).
Proof.
  apply ControllerFacts.currentPage_ge_1.
  eapply Controller.reach_step; [|apply Controller.step_prevPage].
  eapply Controller.reach_step; [|apply Controller.step_setRowsPerPage].
  eapply Controller.reach_step; [|apply Controller.step_nextPage].
  apply Controller.reach_initial.
Defined.

(** * Further properties of the partition *)

(** The shards come in the order of their ids, which are the integers from 0
    up to the number of shards, without a gap. *)
Theorem shardData_ids gs size n :
  0 < size ->
  ceilDiv (Z.of_nat (length (flattenRows gs))) size = Finite n ->
  exists l,
    shardData gs size = Some l
    /\ Z.of_nat (length l) = n
    /\ map shardId l = idsFrom 0 (Z.to_nat n).
Proof.
  intros Hs Hn. rewrite ceilDiv_pos in Hn by assumption. injection Hn as Hn.
  pose proof (ceil_bounds (Z.of_nat (length (flattenRows gs))) size Hs) as B.
  rewrite Hn in B.
  eexists. split; [apply shardData_pos; assumption|]. rewrite Hn. split.
  - rewrite length_map, idsFrom_length. nia.
  - rewrite map_map. simpl. apply map_id.
Qed.

(** [shardData] fails to end exactly for the shard size 0 on an input that
    has rows; a negative shard size gives no shard at all. *)
Theorem shardData_termination gs size :
  (shardData gs size = None <-> size = 0 /\ flattenRows gs <> [])
  /\ (size < 0 -> shardData gs size = Some []).
Proof.
  split; [apply shardData_None_iff|].
  intros Hs. unfold shardData, ceilDiv.
  destruct (Z.eqb_spec size 0); [lia|].
  set (t := Z.of_nat (length (flattenRows gs))).
  assert (Ht : 0 <= t) by (unfold t; lia).
  replace (Z.to_nat (- (- t / size))) with O; [reflexivity|].
  pose proof (Z.div_mod (- t) size ltac:(lia)) as D.
  pose proof (Z.mod_neg_bound (- t) size Hs) as M.
  nia.
Qed.

(** A shard size of 0 makes [getShard] return a shard without groups,
    whatever the id; with a negative shard size and the id 0 the window is
    [slice (0, size)], all rows but the last [- size]. *)
Theorem getShard_degenerate_size sid size gs :
  getShard sid 0 gs = mkShard sid []
  /\ (size < 0 ->
      getShard 0 size gs
      = mkShard 0
          (shardGroups gs
             (firstn (Z.to_nat (Z.of_nat (length (flattenRows gs)) + size))
                     (flattenRows gs)))).
Proof.
  split.
  - unfold getShard, slice. rewrite Z.add_0_r, Z.sub_diag. simpl.
    now rewrite shardGroups_nil.
  - intros Hs. unfold getShard, slice, relIndex. simpl.
    destruct (Z.ltb_spec size 0); [|lia].
    do 2 f_equal.
    replace (Z.to_nat (Z.min 0 _)) with O by lia. rewrite skipn_O.
    f_equal. lia.
Qed.

(** For a positive shard size the id -1 always gives a shard without
    groups, while an id [sid <= -2] whose window starts inside the rows gives
    the shard built from the rows at the positions
    [T + sid * size .. T + sid * size + size - 1], counted from the front. *)
Theorem getShard_negative_ids sid size gs :
  0 < size ->
  getShard (-1) size gs = mkShard (-1) []
  /\ (sid <= -2 ->
      0 <= Z.of_nat (length (flattenRows gs)) + sid * size ->
      getShard sid size gs
      = mkShard sid
          (shardGroups gs
             (firstn (Z.to_nat size)
                (skipn (Z.to_nat (Z.of_nat (length (flattenRows gs))
                                  + sid * size))
                       (flattenRows gs))))).
Proof.
  intros Hs. split.
  - unfold getShard. f_equal.
    replace (slice (flattenRows gs) (-1 * size) (-1 * size + size))
      with (@nil InputRow); [now rewrite shardGroups_nil|].
    unfold slice, relIndex. symmetry.
    destruct (Z.ltb_spec (-1 * size) 0); [|lia].
    destruct (Z.ltb_spec (-1 * size + size) 0); [lia|].
    replace (Z.to_nat _) with O by lia. reflexivity.
  - intros Hsid Hin. unfold getShard. do 2 f_equal.
    unfold slice, relIndex.
    destruct (Z.ltb_spec (sid * size) 0); [|nia].
    destruct (Z.ltb_spec (sid * size + size) 0); [|nia].
    f_equal; [|f_equal]; lia.
Qed.

(** ** Shards keep the rows, their order and their groups *)

Lemma flattenRows_shardGroups gs w :
  flattenRows (shardGroups gs w)
  = flat_map (fun group => filter (inGroup group) w) gs.
Proof.
  rewrite flattenRows_flat_map. unfold shardGroups.
  induction gs as [|g gs IH]; [reflexivity|].
  cbn [map filter flat_map rows]. rewrite <- IH.
  destruct (filter (inGroup g) w); reflexivity.
Qed.

Lemma window_incl {A : Type} (l : list A) (a b : nat) (x : A) :
  In x (firstn b (skipn a l)) -> In x l.
Proof.
  intros H. rewrite <- (firstn_skipn a l). apply in_or_app. right.
  rewrite <- (firstn_skipn b (skipn a l)). apply in_or_app. now left.
Qed.

Lemma regroup_skip_foreign (gs : list InputGroup) (w1 w2 : list InputRow) :
  (forall r, In r w1 -> hasId (flattenRows gs) r = false) ->
  flat_map (fun group => filter (inGroup group) (w1 ++ w2)) gs
  = flat_map (fun group => filter (inGroup group) w2) gs.
Proof.
  induction gs as [|g gs IH]; intros F; [reflexivity|].
  cbn [flat_map]. rewrite filter_app.
  assert (Fg : forall r, In r w1 ->
            inGroup g r = false /\ hasId (flattenRows gs) r = false).
  { intros r Hr. specialize (F r Hr).
    rewrite flattenRows_cons, hasId_app in F.
    now apply orb_false_iff in F. }
  rewrite (filter_none _ w1) by (intros r Hr; apply (Fg r Hr)).
  rewrite IH by (intros r Hr; apply (Fg r Hr)). reflexivity.
Qed.

(** With unique ids, regrouping a window of the flattened rows and
    flattening the groups again gives the window back. *)
Lemma regroup_window (gs : list InputGroup) : forall a b,
  uniqueIds gs ->
  flat_map (fun group =>
              filter (inGroup group) (firstn b (skipn a (flattenRows gs)))) gs
  = firstn b (skipn a (flattenRows gs)).
Proof.
  unfold uniqueIds.
  induction gs as [|g gs IH]; intros a b U.
  - simpl. now rewrite skipn_nil, firstn_nil.
  - rewrite flattenRows_cons in *. rewrite map_app in U.
    rewrite skipn_app, firstn_app.
    set (w1 := firstn b (skipn a (rows g))).
    set (w2 := firstn _ (skipn _ (flattenRows gs))).
    cbn [flat_map]. rewrite filter_app.
    rewrite (filter_all _ w1), (filter_none _ w2).
    + rewrite app_nil_r. f_equal.
      rewrite regroup_skip_foreign.
      * apply IH. eapply NoDup_app_remove_l; eauto.
      * intros r Hr. destruct (hasId (flattenRows gs) r) eqn:E; [|reflexivity].
        apply hasId_In in E. exfalso.
        apply (NoDup_app_disjoint _ _ (id r) U); [|assumption].
        apply in_map. eapply window_incl; eauto.
    + intros r Hr. destruct (inGroup g r) eqn:E; [|reflexivity].
      apply hasId_In in E. exfalso.
      apply (NoDup_app_disjoint _ _ (id r) U); [assumption|].
      apply in_map. eapply window_incl; eauto.
    + intros r Hr. apply hasId_self. eapply window_incl; eauto.
Qed.

Lemma shardAt_rows gs size sid :
  uniqueIds gs ->
  flattenRows (groups (shardAt gs (flattenRows gs) size sid))
  = slice (flattenRows gs) (sid * size) (sid * size + size).
Proof.
  intros U. cbn [shardAt groups].
  rewrite flattenRows_shardGroups. unfold slice. now apply regroup_window.
Qed.

(** With unique ids, the rows of the shard of any id, read group by group,
    are the window [slice (start, end)] of the flattened input, in the same
    order. *)
Theorem getShard_rows_are_window sid size gs :
  uniqueIds gs ->
  flattenRows (groups (getShard sid size gs))
  = slice (flattenRows gs) (sid * size) (sid * size + size).
Proof. intros U. rewrite getShard_shardAt. now apply shardAt_rows. Qed.

Lemma firstn_plus {A : Type} (l : list A) (m k : nat) :
  firstn (m + k) l = firstn m l ++ firstn k (skipn m l).
Proof.
  revert l; induction m as [|m IH]; intros l; [reflexivity|].
  destruct l as [|x l]; simpl.
  - now rewrite firstn_nil.
  - now rewrite IH.
Qed.

Lemma windows_concat (rs : list InputRow) (size : Z) (n : nat) :
  0 < size ->
  flat_map (fun sid => slice rs (sid * size) (sid * size + size)) (idsFrom 0 n)
  = firstn (Z.to_nat (Z.min (Z.of_nat n * size) (Z.of_nat (length rs)))) rs.
Proof.
  intros Hs. unfold idsFrom. induction n as [|n IH].
  - simpl. replace (Z.to_nat _) with O by lia. reflexivity.
  - rewrite seq_S, map_app, flat_map_app, IH.
    cbn [map flat_map Nat.add Z.add]. rewrite app_nil_r.
    rewrite slice_nonneg by nia.
    set (t := Z.of_nat (length rs)).
    replace (Z.to_nat (Z.min (Z.of_nat (S n) * size) t))
      with (Z.to_nat (Z.min (Z.of_nat n * size) t)
            + Z.to_nat (Z.min (Z.of_nat n * size + size) t
                        - Z.min (Z.of_nat n * size) t))%nat by nia.
    rewrite firstn_plus. reflexivity.
Qed.

(** With unique ids and a positive shard size, the rows of all shards, read
    shard by shard and group by group, are the flattened input: no row is
    lost, repeated or moved. *)
Theorem shardData_rows_roundtrip gs size :
  uniqueIds gs ->
  0 < size ->
  exists l,
    shardData gs size = Some l
    /\ flat_map (fun sh => flattenRows (groups sh)) l = flattenRows gs.
Proof.
  intros U Hs. eexists. split; [apply shardData_pos; assumption|].
  rewrite flat_map_concat_map, map_map, <- flat_map_concat_map.
  rewrite (flat_map_ext _
    (fun sid => slice (flattenRows gs) (sid * size) (sid * size + size)))
    by (intros sid; rewrite getShard_shardAt; now apply shardAt_rows).
  rewrite windows_concat by assumption.
  pose proof (ceil_bounds (Z.of_nat (length (flattenRows gs))) size Hs) as B.
  apply firstn_all2. nia.
Qed.

(** ** Row conservation *)

(** C2.  With globally unique row ids and a positive shard size, the
    partition ends, the row counts of the groups of its shards add up to
    the number of rows of the input, and the rows of its shards, read shard
    by shard and group by group, are the rows of the input in their order:
    every row is in exactly one shard, none is repeated or lost. *)
Theorem row_conservation gs size :
  uniqueIds gs ->
  0 < size ->
  exists l,
    shardData gs size = Some l
    /\ shardsRowCount l = length (flattenRows gs)
    /\ flat_map (fun sh => flattenRows (groups sh)) l = flattenRows gs
    /\ NoDup (map id (flat_map (fun sh => flattenRows (groups sh)) l)).
Proof.
  intros U Hs.
  pose proof (ceil_bounds (Z.of_nat (length (flattenRows gs))) size Hs) as B.
  set (t := Z.of_nat (length (flattenRows gs))) in *.
  set (n := - (- t / size)) in *.
  assert (Hn : 0 <= n) by (unfold t in *; nia).
  assert (R : flat_map (fun sh => flattenRows (groups sh))
                (map (fun sid => getShard sid size gs)
                     (idsFrom 0 (Z.to_nat n)))
              = flattenRows gs).
  { rewrite flat_map_concat_map, map_map, <- flat_map_concat_map.
    rewrite (flat_map_ext _
      (fun sid => slice (flattenRows gs) (sid * size) (sid * size + size)))
      by (intros sid; rewrite getShard_shardAt; now apply shardAt_rows).
    rewrite windows_concat by assumption.
    apply firstn_all2. fold t. rewrite Z2Nat.id by assumption. lia. }
  eexists. split; [apply shardData_pos; assumption|].
  fold t. fold n. split; [|split].
  - unfold shardsRowCount. rewrite map_map.
    rewrite (map_ext _
      (fun sid =>
         length (slice (flattenRows gs) (sid * size) (sid * size + size))))
      by (intros sid; rewrite getShard_shardAt; now apply shardAt_rowCount).
    apply Nat2Z.inj. rewrite windows_length by assumption.
    fold t. rewrite Z2Nat.id by assumption. lia.
  - exact R.
  - rewrite R. exact U.
Qed.

(** ** A negative shard id *)

(** C9.  On an input of five rows with unique ids, [getShard (-2, 2, groups)]
    returns the shard of id -2 whose rows, read group by group, are exactly
    the rows at positions 1 and 2 of the flattened input; its group list is
    not empty. *)
Theorem getShard_negative_id gs r1 r2 :
  length (flattenRows gs) = 5%nat ->
  uniqueIds gs ->
  nth_error (flattenRows gs) 1 = Some r1 ->
  nth_error (flattenRows gs) 2 = Some r2 ->
  getShard (-2) 2 gs = mkShard (-2) (shardGroups gs [r1; r2])
  /\ flattenRows (groups (getShard (-2) 2 gs)) = [r1; r2]
  /\ groups (getShard (-2) 2 gs) <> [].
Proof.
  intros L U H1 H2.
  assert (E : slice (flattenRows gs) (-2 * 2) (-2 * 2 + 2) = [r1; r2]).
  { unfold slice. rewrite L. simpl.
    destruct (flattenRows gs) as [|a [|b [|c [|d [|e [|]]]]]]; try discriminate.
    simpl in *. congruence. }
  assert (F : flattenRows (groups (getShard (-2) 2 gs)) = [r1; r2]).
  { rewrite getShard_shardAt, shardAt_rows by assumption. exact E. }
  split; [|split].
  - unfold getShard. now rewrite E.
  - exact F.
  - intros N. rewrite N in F. discriminate F.
Qed.

(** With unique ids and a positive shard size, the shard of an id in range
    holds [min (size, T - sid * size)] rows: at least one, at most [size],
    and exactly [size] unless it is the last shard. *)
Theorem shard_row_count gs size sid n :
  uniqueIds gs ->
  0 < size ->
  ceilDiv (Z.of_nat (length (flattenRows gs))) size = Finite n ->
  0 <= sid < n ->
  let count := Z.of_nat (rowCount (groups (getShard sid size gs))) in
  count = Z.min size (Z.of_nat (length (flattenRows gs)) - sid * size)
  /\ 1 <= count <= size
  /\ (sid < n - 1 -> count = size).
Proof.
  intros U Hs Hn Hsid count. subst count.
  rewrite ceilDiv_pos in Hn by assumption. injection Hn as Hn.
  pose proof (ceil_bounds (Z.of_nat (length (flattenRows gs))) size Hs) as B.
  rewrite Hn in B.
  rewrite getShard_shardAt, shardAt_rowCount by assumption.
  rewrite slice_length by nia.
  repeat split; nia.
Qed.

Lemma row_in_own_group (gs : list InputGroup) (g : InputGroup) (r : InputRow) :
  uniqueIds gs ->
  In g gs -> In r (flattenRows gs) -> inGroup g r = true -> In r (rows g).
Proof.
  unfold uniqueIds. induction gs as [|h t IH]; intros U Hg Hr Hi.
  - contradiction.
  - rewrite flattenRows_cons in *. rewrite map_app in U.
    apply hasId_In in Hi.
    apply in_app_or in Hr. destruct Hg as [-> | Hg], Hr as [Hr | Hr].
    + assumption.
    + exfalso. apply (NoDup_app_disjoint _ _ (id r) U); [assumption|].
      now apply in_map.
    + exfalso. apply (NoDup_app_disjoint _ _ (id r) U); [now apply in_map|].
      rewrite flattenRows_flat_map, flat_map_concat_map, concat_map, map_map.
      apply in_concat. exists (map id (rows g)). split; [|assumption].
      apply in_map_iff. now exists g.
    + apply IH; try assumption.
      * eapply NoDup_app_remove_l; eauto.
      * now apply hasId_In.
Qed.

(** With unique ids, every group of a shard comes from a group of the input
    with the same name, has at least one row, and holds only rows of that
    input group, all of them from the shard's window. *)
Theorem shard_groups_from_input sid size gs g' :
  uniqueIds gs ->
  In g' (groups (getShard sid size gs)) ->
  exists g,
    In g gs
    /\ groupName g' = groupName g
    /\ rows g' <> []
    /\ forall r, In r (rows g') ->
         In r (rows g)
         /\ In r (slice (flattenRows gs) (sid * size) (sid * size + size)).
Proof.
  intros U H. unfold getShard, shardGroups in H. cbn [groups] in H.
  apply filter_In in H. destruct H as [H Hne].
  apply in_map_iff in H. destruct H as [g [<- Hg]].
  exists g. cbn [groupName rows] in *.
  split; [assumption|]. split; [reflexivity|]. split.
  - intros N. rewrite N in Hne. discriminate.
  - intros r Hr. apply filter_In in Hr. destruct Hr as [Hw Hi].
    split; [|assumption].
    apply (row_in_own_group gs); try assumption.
    eapply slice_incl; eauto.
Qed.

(** ** Failure modes of the listener *)

(** The listener throws exactly on a "shardData" or "getShard" message
    without payload, and fails to answer exactly on a "shardData" message
    whose shard size is 0 and whose groups have rows; every other message is
    answered. *)
Theorem onMessage_failures (data : Worker.Message) :
  (Worker.onMessage data = Worker.Throws
   <-> (Worker.action data = "shardData"%string
        \/ Worker.action data = "getShard"%string)
       /\ Worker.payload data = None)
  /\ (Worker.onMessage data = Worker.Diverges
      <-> Worker.action data = "shardData"%string
          /\ exists p,
               Worker.payload data = Some p
               /\ Worker.p_shardSize p = 0
               /\ flattenRows (Worker.p_groups p) <> []).
Proof.
  unfold Worker.onMessage.
  destruct (String.eqb_spec (Worker.action data) "shardData") as [A|A];
    [|destruct (String.eqb_spec (Worker.action data) "getShard") as [B|B]];
    destruct (Worker.payload data) as [p|] eqn:P;
    try (destruct (shardData (Worker.p_groups p) (Worker.p_shardSize p))
           eqn:S);
    (split; split; intros H);
    try discriminate H;
    try match type of H with
        | (_ \/ _) /\ _ => destruct H as [[C|C] N]; congruence
        | _ /\ (exists _, _) => destruct H as [C [q [Q _]]]; congruence
        end.
  - destruct H as [_ [q [Q [Z0 R]]]]. injection Q as <-.
    assert (N : shardData (Worker.p_groups p) (Worker.p_shardSize p) = None)
      by (apply shardData_None_iff; tauto).
    congruence.
  - apply shardData_None_iff in S. split; [assumption|]. exists p. tauto.
  - split; [now left | reflexivity].
  - split; [now right | reflexivity].
Qed.

(** * The persistence gateway *)

Module ServiceFacts.

Lemma storeLoop_addShards gs allRows size n : forall sid db,
  Service.storeLoop gs allRows size n sid db
  = Service.addShards db (map (shardAt gs allRows size) (idsFrom sid n)).
Proof.
  induction n as [|n IH]; intros sid db; [reflexivity|].
  rewrite idsFrom_S. cbn [Service.storeLoop map].
  unfold Service.addShards. cbn [fold_left].
  apply IH.
Qed.

Lemma addShards_lookup (f : Z -> Shard) (n : nat) : forall sid db key,
  (forall i, shardId (f i) = i) ->
  Service.addShards db (map f (idsFrom sid n)) key
  = if (sid <=? key) && (key <? sid + Z.of_nat n) then Some (f key)
    else db key.
Proof.
  induction n as [|n IH]; intros sid db key Hf.
  - simpl. destruct (Z.leb_spec sid key), (Z.ltb_spec key (sid + 0));
      simpl; try reflexivity; lia.
  - rewrite idsFrom_S. unfold Service.addShards in *. cbn [map fold_left].
    rewrite IH by assumption. unfold Service.addShard. rewrite Hf.
    destruct (Z.leb_spec (sid + 1) key), (Z.ltb_spec key (sid + 1 + Z.of_nat n)),
             (Z.leb_spec sid key), (Z.ltb_spec key (sid + Z.of_nat (S n))),
             (Z.eqb_spec key sid);
      simpl; try reflexivity; try lia.
    subst. reflexivity.
Qed.

Lemma addShard_consistent db sh :
  Service.consistent db -> Service.consistent (Service.addShard db sh).
Proof.
  intros C key s. unfold Service.addShard.
  destruct (Z.eqb_spec key (shardId sh)).
  - intros E. injection E as <-. congruence.
  - apply C.
Qed.

Lemma addShards_consistent l : forall db,
  Service.consistent db -> Service.consistent (Service.addShards db l).
Proof.
  induction l as [|sh l IH]; intros db C; [exact C|].
  unfold Service.addShards. cbn [fold_left]. apply IH.
  now apply addShard_consistent.
Qed.

Lemma shardData_addShards db gs size :
  Service.shardData db gs size
  = option_map (Service.addShards db) (shardData gs size).
Proof.
  unfold Service.shardData, shardData.
  destruct (ceilDiv _ size); try reflexivity.
  cbn [option_map]. rewrite storeLoop_addShards, shardLoop_map. reflexivity.
Qed.

(** The service's [shardData] files, one after the other, exactly the
    shards the worker's [shardData] returns for the same input, and fails to
    end on the same inputs. *)
Theorem service_shardData_is_worker_partition db gs size :
  Service.shardData db gs size
  = option_map (Service.addShards db) (shardData gs size).
Proof. apply shardData_addShards. Qed.

(** After the service's [shardData] with a positive shard size, the store
    answers every id in range with the shard [getShard] of the worker
    computes for that id, and every other id as it did before. *)
Theorem service_getShard_after_shardData db gs size n :
  0 < size ->
  ceilDiv (Z.of_nat (length (flattenRows gs))) size = Finite n ->
  exists db',
    Service.shardData db gs size = Some db'
    /\ (forall key, 0 <= key < n ->
          Service.getShard db' key = Some (getShard key size gs))
    /\ (forall key, ~ 0 <= key < n ->
          Service.getShard db' key = Service.getShard db key).
Proof.
  intros Hs Hn. unfold Service.shardData. rewrite Hn.
  rewrite ceilDiv_pos in Hn by assumption. injection Hn as Hn.
  pose proof (ceil_bounds (Z.of_nat (length (flattenRows gs))) size Hs) as B.
  rewrite Hn in B. assert (0 <= n) by nia.
  eexists. split; [reflexivity|].
  unfold Service.getShard. split; intros key Hk;
    rewrite storeLoop_addShards, addShards_lookup by reflexivity;
    destruct (Z.leb_spec 0 key), (Z.ltb_spec key (0 + Z.of_nat (Z.to_nat n)));
    simpl; try reflexivity; lia.
Qed.

(** A store in which every key holds a shard of that id stays so under
    [addShard] and under the service's [shardData]. *)
Theorem store_stays_consistent db :
  Service.consistent db ->
  (forall sh, Service.consistent (Service.addShard db sh))
  /\ (forall gs size db',
        Service.shardData db gs size = Some db' -> Service.consistent db').
Proof.
  intros C. split.
  - intros sh. now apply addShard_consistent.
  - intros gs size db' E. rewrite shardData_addShards in E.
    destruct (shardData gs size) as [l|]; [|discriminate].
    injection E as <-. now apply addShards_consistent.
Qed.

End ServiceFacts.

(** * Navigation, the store and the template *)

Module NavigationFacts.
Import Controller.

Lemma step_keeps_sharded st st' :
  step st st' -> shardedInputGroups st' = shardedInputGroups st.
Proof.
  intros S. destruct S as [db st|db sid st|db st|db st|db n st]; simpl;
    try reflexivity.
  - unfold nextPage.
    destruct (differs (nextPageShardId st) (currentShard st)); reflexivity.
  - unfold prevPage. destruct (1 <? currentPage st); [|reflexivity].
    match goal with |- context [if ?b then _ else _] => destruct b end;
      reflexivity.
Qed.

Lemma reachable_inv st :
  reachable st ->
  1 <= currentPage st /\ shardedInputGroups st = mkSharded 0 1000 [].
Proof.
  induction 1 as [|st st' _ [IHp IHs] S].
  - split; [simpl; lia | reflexivity].
  - split.
    + eapply ControllerFacts.step_keeps_page; eauto.
    + rewrite (step_keeps_sharded st st' S). exact IHs.
Qed.

Lemma nextPage_page db st :
  currentPage (fst (nextPage db st)) = currentPage st + 1
  /\ rowsPerPage (fst (nextPage db st)) = rowsPerPage st
  /\ shardedInputGroups (fst (nextPage db st)) = shardedInputGroups st.
Proof.
  unfold nextPage.
  destruct (differs (nextPageShardId st) (currentShard st)); simpl; auto.
Qed.

Lemma nextPage_synced db st :
  Service.consistent db -> synced (fst (nextPage db st)).
Proof.
  intros C sh. unfold nextPage, pageShardId.
  destruct (differs (nextPageShardId st) (currentShard st)) eqn:D;
    cbn [fst loadShard currentShard currentPage rowsPerPage shardedInputGroups];
    replace (currentPage st + 1 - 1) with (currentPage st) by lia;
    fold (nextPageShardId st); intros E.
  - now apply C.
  - apply ControllerFacts.differs_false in D. rewrite E in D. simpl in D.
    congruence.
Qed.

Lemma prevPage_synced db st :
  Service.consistent db -> synced st -> synced (fst (prevPage db st)).
Proof.
  intros C Y sh. unfold prevPage.
  destruct (1 <? currentPage st); [|apply Y].
  match goal with |- context [if ?b then _ else _] => destruct b eqn:D end;
    cbn [fst loadShard currentShard]; intros E.
  - apply C in E. rewrite E. reflexivity.
  - apply ControllerFacts.differs_false in D. cbn [currentShard] in D.
    rewrite E in D. simpl in D. injection D as D. rewrite D. reflexivity.
Qed.

(** In every reachable state the record [shardedInputGroups] is the one the
    class starts with: no method assigns it, so the shard size of the page
    arithmetic is 1000 and [totalRows] is 0 throughout. *)
Theorem shardedInputGroups_never_changes st :
  reachable st -> shardedInputGroups st = mkSharded 0 1000 [].
Proof. intros R. now apply reachable_inv. Qed.

(** Against a store in which every key holds a shard of that id, a state
    whose loaded shard is the shard of its current page keeps that property
    under [nextPage], [prevPage] and [setRowsPerPage]. *)
Theorem navigation_keeps_sync db st :
  Service.consistent db ->
  shardSize (shardedInputGroups st) <> 0 ->
  synced st ->
  synced (fst (nextPage db st))
  /\ synced (fst (prevPage db st))
  /\ (forall n, synced (fst (setRowsPerPage db n st))).
Proof.
  intros C _ Y. split; [|split].
  - now apply nextPage_synced.
  - now apply prevPage_synced.
  - intros n sh E. cbn in E. apply C in E. rewrite E.
    unfold pageShardId. simpl. reflexivity.
Qed.

(** In a state whose loaded shard is the shard of the current page,
    [nextPage] loads a shard exactly when the next page starts in another
    shard than the current page, and then it loads that shard. *)
Theorem nextPage_loads_at_shard_boundary db st sh :
  shardSize (shardedInputGroups st) <> 0 ->
  currentShard st = Some sh ->
  shardId sh = pageShardId st ->
  snd (nextPage db st)
  = if pageShardId st =? nextPageShardId st then []
    else [nextPageShardId st].
Proof.
  intros _ E Y. unfold nextPage. rewrite E. cbn [differs]. rewrite Y.
  rewrite (Z.eqb_sym (nextPageShardId st)).
  destruct (pageShardId st =? nextPageShardId st); reflexivity.
Qed.

(** [k] calls of [nextPage] raise the page by [k], whatever the store holds
    and however many rows there are: the controller has no last page. *)
Theorem nextPages_adds_pages db k st :
  currentPage (fst (nextPages db k st)) = currentPage st + Z.of_nat k
  /\ rowsPerPage (fst (nextPages db k st)) = rowsPerPage st.
Proof.
  revert st; induction k as [|k IH]; intros st.
  - simpl. split; [lia | reflexivity].
  - cbn [nextPages].
    destruct (nextPage db st) as [st1 l1] eqn:N.
    specialize (IH st1). destruct (nextPages db k st1) as [st2 l2].
    pose proof (nextPage_page db st) as P. rewrite N in P.
    cbn [fst] in *. destruct IH as [IH1 IH2], P as [P1 [P2 _]].
    split; [lia | congruence].
Qed.

(** From a page of at least 1, [nextPage] followed by [prevPage] comes back
    to the same page and page size, and against a consistent store the
    loaded shard, if any, is again the shard of that page. *)
Theorem nextPage_prevPage_roundtrip db1 db2 st :
  1 <= currentPage st ->
  let st' := fst (prevPage db2 (fst (nextPage db1 st))) in
  currentPage st' = currentPage st
  /\ rowsPerPage st' = rowsPerPage st
  /\ shardedInputGroups st' = shardedInputGroups st
  /\ (Service.consistent db1 -> Service.consistent db2 -> synced st').
Proof.
  intros Hp st'. subst st'.
  pose proof (nextPage_page db1 st) as [P1 [P2 P3]].
  set (st1 := fst (nextPage db1 st)) in *.
  assert (G : (1 <? currentPage st1) = true) by (apply Z.ltb_lt; lia).
  repeat split.
  - unfold prevPage. rewrite G.
    match goal with |- context [if ?b then _ else _] => destruct b end;
      simpl; lia.
  - unfold prevPage. rewrite G.
    match goal with |- context [if ?b then _ else _] => destruct b end;
      simpl; congruence.
  - unfold prevPage. rewrite G.
    match goal with |- context [if ?b then _ else _] => destruct b end;
      simpl; congruence.
  - intros C1 C2. apply prevPage_synced; [assumption|].
    now apply nextPage_synced.
Qed.

End NavigationFacts.

(** * What the template shows *)

Module TemplateFacts.

Lemma slice_prefix {A : Type} (l : list A) (n : Z) :
  0 <= n -> slice l 0 n = firstn (Z.to_nat n) l.
Proof.
  intros Hn. rewrite slice_nonneg by lia.
  rewrite (Z.min_l 0) by lia. rewrite Z.sub_0_r. cbn [Z.to_nat skipn].
  destruct (Z.le_ge_cases n (Z.of_nat (length l))).
  - now rewrite Z.min_l by assumption.
  - rewrite Z.min_r by lia. rewrite Nat2Z.id.
    rewrite !firstn_all2 by lia. reflexivity.
Qed.

(** With a loaded shard and a page size of at least 0, the view has one
    table per group of the shard, holding the first [rowsPerPage] rows of
    that group (all of them if there are fewer); the current page plays no
    part in the tables. *)
Theorem render_tables st sh :
  Controller.currentShard st = Some sh ->
  0 <= Controller.rowsPerPage st ->
  option_map Template.tables (Template.render st)
  = Some (map (fun group =>
                 (groupName group,
                  firstn (Z.to_nat (Controller.rowsPerPage st)) (rows group)))
              (groups sh)).
Proof.
  intros E Hr. unfold Template.render. rewrite E. cbn [option_map Template.tables].
  f_equal. apply map_ext. intros g. now rewrite slice_prefix.
Qed.

(** When [nextPage] stays in the loaded shard, the tables of the view after
    the call are the tables before it: the next page shows the same rows. *)
Theorem render_same_within_shard db st sh :
  Controller.currentShard st = Some sh ->
  Controller.nextPageShardId st = shardId sh ->
  option_map Template.tables
    (Template.render (fst (Controller.nextPage db st)))
  = option_map Template.tables (Template.render st).
Proof.
  intros E T.
  rewrite (ControllerFacts.nextPage_same_shard db st sh) by assumption.
  unfold Template.render. cbn [fst Controller.currentShard Controller.rowsPerPage].
  rewrite E. reflexivity.
Qed.

(** In every reachable state with a loaded shard and a page size of at
    least 0, the Next button is disabled: [totalRows] is still 0. *)
Theorem next_button_always_disabled st v :
  Controller.reachable st ->
  0 <= Controller.rowsPerPage st ->
  Template.render st = Some v ->
  Template.nextDisabled v = true.
Proof.
  intros R Hr E. apply NavigationFacts.reachable_inv in R.
  destruct R as [Hp Hs]. unfold Template.render in E.
  destruct (Controller.currentShard st); [|discriminate].
  injection E as <-. cbn [Template.nextDisabled]. rewrite Hs. simpl.
  apply Z.leb_le. nia.
Qed.

(** In every reachable state with a loaded shard, the Previous button is
    disabled exactly when [prevPage] would change nothing. *)
Theorem prev_button_disabled_iff_noop st v db :
  Controller.reachable st ->
  Template.render st = Some v ->
  Template.prevDisabled v = true <-> Controller.prevPage db st = (st, []).
Proof.
  intros R E. apply NavigationFacts.reachable_inv in R.
  destruct R as [Hp _]. unfold Template.render in E.
  destruct (Controller.currentShard st) eqn:Cs; [|discriminate].
  injection E as <-. cbn [Template.prevDisabled].
  rewrite Z.eqb_eq. unfold Controller.prevPage. split.
  - intros P. rewrite P. reflexivity.
  - destruct (Z.ltb_spec 1 (Controller.currentPage st)) as [L|L]; [|lia].
    intros N. exfalso.
    assert (Q : Controller.currentPage (fst (st, @nil Z))
                = Controller.currentPage st - 1).
    { rewrite <- N.
      match goal with |- context [if ?b then _ else _] => destruct b end;
        reflexivity. }
    simpl in Q. lia.
Qed.

End TemplateFacts.

(** * From the input to the first page *)

(** The groups of a shard are the groups of the input that have a row of
    the shard's window, by id, in the order of the input. *)
Theorem getShard_group_names sid size gs :
  map groupName (groups (getShard sid size gs))
  = map groupName
      (filter (fun group =>
                 existsb (inGroup group)
                   (slice (flattenRows gs) (sid * size) (sid * size + size)))
              gs).
Proof.
  unfold getShard, shardGroups. cbn [groups].
  set (w := slice _ _ _). clearbody w.
  induction gs as [|g gs IH]; [reflexivity|].
  cbn [map filter rows].
  assert (E : (0 <? Z.of_nat (length (filter (inGroup g) w)))
              = existsb (inGroup g) w).
  { clear IH. induction w as [|r w IHw]; [reflexivity|].
    simpl. destruct (inGroup g r); simpl; [|exact IHw].
    apply Z.ltb_lt. lia. }
  rewrite E. destruct (existsb (inGroup g) w); cbn [map groupName];
    now rewrite IH.
Qed.

(** After the service's [shardData] on an input with rows and a positive
    shard size, [initialize] loads the id 0 and the loaded shard is the
    first shard of the partition. *)
Theorem initialize_after_shardData db gs size st :
  0 < size ->
  flattenRows gs <> [] ->
  exists db',
    Service.shardData db gs size = Some db'
    /\ snd (Controller.initialize db' st) = [0]
    /\ Controller.currentShard (fst (Controller.initialize db' st))
       = Some (getShard 0 size gs).
Proof.
  intros Hs Hne. unfold Service.shardData.
  rewrite ceilDiv_pos by assumption.
  pose proof (ceil_bounds (Z.of_nat (length (flattenRows gs))) size Hs) as B.
  assert (0 < Z.of_nat (length (flattenRows gs))).
  { destruct (flattenRows gs); [now elim Hne | simpl; lia]. }
  eexists. split; [reflexivity|]. split; [reflexivity|].
  cbn [Controller.initialize Controller.loadShard fst Controller.currentShard].
  rewrite ServiceFacts.storeLoop_addShards,
    ServiceFacts.addShards_lookup by reflexivity.
  destruct (Z.leb_spec 0 0); [|lia].
  match goal with |- context [0 <? ?x] => destruct (Z.ltb_spec 0 x) end;
    [reflexivity | nia].
Qed.

(** * Further instances on the sample data *)

Lemma emptyDb_consistent : Service.consistent Service.emptyDb.
Proof. intros key sh E. discriminate E. Defined.

Lemma fullStore_consistent : Service.consistent fullStore.
Proof. intros key sh E. injection E as <-. reflexivity. Defined.

Lemma firstPageState_synced : synced firstPageState.
Proof. intros sh E. injection E as <-. reflexivity. Defined.

Lemma shardData_ids_sample :
  exists l,
    shardData sampleGroups 5 = Some l
    /\ Z.of_nat (length l) = 3
    /\ map shardId l = idsFrom 0 (Z.to_nat 3).
Proof. apply (shardData_ids sampleGroups 5 3); [lia | reflexivity]. Defined.

Lemma shardData_termination_sample :
  shardData sampleGroups (-5) = Some [].
Proof. apply (proj2 (shardData_termination sampleGroups (-5))). lia. Defined.

Lemma getShard_degenerate_size_sample :
  getShard 0 (-5) sampleGroups
  = mkShard 0
      (shardGroups sampleGroups
         (firstn (Z.to_nat (Z.of_nat (length (flattenRows sampleGroups)) + -5))
                 (flattenRows sampleGroups))).
Proof.
  apply (proj2 (getShard_degenerate_size 0 (-5) sampleGroups)). lia.
Defined.

Lemma getShard_negative_ids_sample :
  getShard (-1) 2 fiveRows = mkShard (-1) []
  /\ getShard (-2) 2 fiveRows
     = mkShard (-2)
         (shardGroups fiveRows
            (firstn (Z.to_nat 2)
               (skipn (Z.to_nat (Z.of_nat (length (flattenRows fiveRows))
                                 + -2 * 2))
                      (flattenRows fiveRows)))).
Proof.
  destruct (getShard_negative_ids (-2) 2 fiveRows) as [H1 H2]; [lia|].
  split; [exact H1 | apply H2; simpl; lia].
Defined.

Lemma getShard_rows_are_window_sample :
  flattenRows (groups (getShard 1 5 sampleGroups))
  = slice (flattenRows sampleGroups) (1 * 5) (1 * 5 + 5).
Proof.
  apply (getShard_rows_are_window 1 5 sampleGroups).
  exact sampleGroups_uniqueIds.
Defined.

Lemma shardData_rows_roundtrip_sample :
  exists l,
    shardData sampleGroups 5 = Some l
    /\ flat_map (fun sh => flattenRows (groups sh)) l
       = flattenRows sampleGroups.
Proof.
  apply (shardData_rows_roundtrip sampleGroups 5);
    [exact sampleGroups_uniqueIds | lia].
Defined.

Lemma shard_row_count_sample :
  let count := Z.of_nat (rowCount (groups (getShard 2 5 sampleGroups))) in
  count = Z.min 5 (Z.of_nat (length (flattenRows sampleGroups)) - 2 * 5)
  /\ 1 <= count <= 5
  /\ (2 < 3 - 1 -> count = 5).
Proof.
  apply (shard_row_count sampleGroups 5 2 3);
    [exact sampleGroups_uniqueIds | lia | reflexivity | lia].
Defined.

Lemma shard_groups_from_input_sample :
  exists g,
    In g sampleGroups
    /\ groupName (mkGroup "group2" (map sampleRow [5; 6])) = groupName g
    /\ rows (mkGroup "group2" (map sampleRow [5; 6])) <> []
    /\ forall r, In r (rows (mkGroup "group2" (map sampleRow [5; 6]))) ->
         In r (rows g)
         /\ In r (slice (flattenRows sampleGroups) (1 * 5) (1 * 5 + 5)).
Proof.
  apply (shard_groups_from_input 1 5 sampleGroups);
    [exact sampleGroups_uniqueIds | left; reflexivity].
Defined.

Lemma onMessage_failures_sample :
  Worker.onMessage bareGetShardRequest = Worker.Throws.
Proof.
  apply (proj1 (onMessage_failures bareGetShardRequest)).
  split; [right; reflexivity | reflexivity].
Defined.

Lemma service_getShard_after_shardData_sample :
  exists db',
    Service.shardData Service.emptyDb sampleGroups 5 = Some db'
    /\ (forall key, 0 <= key < 3 ->
          Service.getShard db' key = Some (getShard key 5 sampleGroups))
    /\ (forall key, ~ 0 <= key < 3 ->
          Service.getShard db' key = Service.getShard Service.emptyDb key).
Proof.
  apply (ServiceFacts.service_getShard_after_shardData
           Service.emptyDb sampleGroups 5 3); [lia | reflexivity].
Defined.

Lemma store_stays_consistent_sample :
  (forall sh, Service.consistent (Service.addShard Service.emptyDb sh))
  /\ (forall gs size db',
        Service.shardData Service.emptyDb gs size = Some db' ->
        Service.consistent db').
Proof.
  apply (ServiceFacts.store_stays_consistent Service.emptyDb).
  exact emptyDb_consistent.
Defined.

Lemma initialize_after_shardData_sample :
  exists db',
    Service.shardData Service.emptyDb sampleGroups 5 = Some db'
    /\ snd (Controller.initialize db' Controller.initial) = [0]
    /\ Controller.currentShard
         (fst (Controller.initialize db' Controller.initial))
       = Some (getShard 0 5 sampleGroups).
Proof.
  apply (initialize_after_shardData Service.emptyDb sampleGroups 5
           Controller.initial); [lia | discriminate].
Defined.

Lemma reachable_after_initialize :
  Controller.reachable (fst (Controller.initialize fullStore Controller.initial)).
Proof.
  eapply Controller.reach_step;
    [apply Controller.reach_initial | apply Controller.step_initialize].
Defined.

Lemma shardedInputGroups_never_changes_sample :
  Controller.shardedInputGroups
    (fst (Controller.setRowsPerPage emptyStore 15
            (fst (Controller.nextPage fullStore Controller.initial))))
  = mkSharded 0 1000 [].
Proof.
  apply NavigationFacts.shardedInputGroups_never_changes.
  eapply Controller.reach_step; [|apply Controller.step_setRowsPerPage].
  eapply Controller.reach_step; [|apply Controller.step_nextPage].
  apply Controller.reach_initial.
Defined.

Lemma navigation_keeps_sync_sample :
  synced (fst (Controller.nextPage fullStore firstPageState))
  /\ synced (fst (Controller.prevPage fullStore firstPageState))
  /\ (forall n, synced (fst (Controller.setRowsPerPage fullStore n
                               firstPageState))).
Proof.
  apply (NavigationFacts.navigation_keeps_sync fullStore firstPageState);
    [exact fullStore_consistent | discriminate | exact firstPageState_synced].
Defined.

Lemma nextPage_loads_at_shard_boundary_sample :
  snd (Controller.nextPage fullStore page101State)
  = if pageShardId page101State =? Controller.nextPageShardId page101State
    then [] else [Controller.nextPageShardId page101State].
Proof.
  apply (NavigationFacts.nextPage_loads_at_shard_boundary fullStore
           page101State (mkShard 1 [])); [discriminate | reflexivity..].
Defined.

Lemma nextPage_prevPage_roundtrip_sample :
  let st' := fst (Controller.prevPage fullStore
                    (fst (Controller.nextPage emptyStore firstPageState))) in
  Controller.currentPage st' = Controller.currentPage firstPageState
  /\ Controller.rowsPerPage st' = Controller.rowsPerPage firstPageState
  /\ Controller.shardedInputGroups st'
     = Controller.shardedInputGroups firstPageState
  /\ (Service.consistent emptyStore -> Service.consistent fullStore ->
      synced st').
Proof.
  apply (NavigationFacts.nextPage_prevPage_roundtrip emptyStore fullStore
           firstPageState). simpl. lia.
Defined.

Lemma render_tables_sample :
  option_map Template.tables (Template.render loadedState)
  = Some (map (fun group =>
                 (groupName group,
                  firstn (Z.to_nat (Controller.rowsPerPage loadedState))
                         (rows group)))
              sampleGroups).
Proof.
  apply (TemplateFacts.render_tables loadedState (mkShard 0 sampleGroups));
    [reflexivity | simpl; lia].
Defined.

Lemma render_same_within_shard_sample :
  option_map Template.tables
    (Template.render (fst (Controller.nextPage emptyStore loadedState)))
  = option_map Template.tables (Template.render loadedState).
Proof.
  apply (TemplateFacts.render_same_within_shard emptyStore loadedState
           (mkShard 0 sampleGroups)); reflexivity.
Defined.

Lemma next_button_always_disabled_sample :
  Template.nextDisabled (Template.mkView [] true true) = true.
Proof.
  apply (TemplateFacts.next_button_always_disabled
           (fst (Controller.initialize fullStore Controller.initial)));
    [exact reachable_after_initialize | simpl; lia | reflexivity].
Defined.

Lemma prev_button_disabled_iff_noop_sample :
  Template.prevDisabled (Template.mkView [] true true) = true
  <-> Controller.prevPage emptyStore
        (fst (Controller.initialize fullStore Controller.initial))
      = (fst (Controller.initialize fullStore Controller.initial), []).
Proof.
  apply (TemplateFacts.prev_button_disabled_iff_noop
           (fst (Controller.initialize fullStore Controller.initial)));
    [exact reachable_after_initialize | reflexivity].
Defined.

(** * Instances for the partition and the listener *)

Lemma row_conservation_sample :
  exists l,
    shardData sampleGroups 5 = Some l
    /\ shardsRowCount l = length (flattenRows sampleGroups)
    /\ flat_map (fun sh => flattenRows (groups sh)) l
       = flattenRows sampleGroups
    /\ NoDup (map id (flat_map (fun sh => flattenRows (groups sh)) l)).
Proof.
  apply (row_conservation sampleGroups 5);
    [exact sampleGroups_uniqueIds | lia].
Defined.

Lemma shardData_size_above_rows_sample :
  (oneShardOfAll sampleGroups 13
   /\ (exists gl, shardData sampleGroups 13 = Some [mkShard 0 gl])
   /\ (uniqueIds sampleGroups ->
       shardData sampleGroups 13
       = Some [mkShard 0
                 (filter (fun group => 0 <? Z.of_nat (length (rows group)))
                         sampleGroups)]))
  /\ shardData rowlessGroups 1 = Some [].
Proof.
  split.
  - apply (proj1 (shardData_size_above_rows sampleGroups 13 ltac:(simpl; lia))).
    discriminate.
  - apply (proj2 (shardData_size_above_rows rowlessGroups 1 ltac:(simpl; lia))).
    reflexivity.
Defined.

Lemma getShard_negative_id_fiveRows :
  uniqueIds fiveRows
  /\ getShard (-2) 2 fiveRows
     = mkShard (-2) (shardGroups fiveRows [sampleRow 11; sampleRow 12])
  /\ flattenRows (groups (getShard (-2) 2 fiveRows))
     = [sampleRow 11; sampleRow 12]
  /\ groups (getShard (-2) 2 fiveRows) <> [].
Proof.
  split; [exact fiveRows_uniqueIds|].
  apply (getShard_negative_id fiveRows (sampleRow 11) (sampleRow 12));
    [reflexivity | exact fiveRows_uniqueIds | reflexivity | reflexivity].
Defined.

Lemma onMessage_replies_sample :
  Worker.onMessage unknownRequest
  = Worker.Posted (Worker.ErrorResult "Unknown action")
  /\ (exists l,
        shardData sampleGroups 5 = Some l
        /\ Worker.onMessage shardDataRequest
           = Worker.Posted (Worker.ShardList l))
  /\ Worker.onMessage getShardRequest
     = Worker.Posted (Worker.SingleShard (getShard 1 5 sampleGroups)).
Proof.
  split; [|split].
  - apply (proj1 (onMessage_replies unknownRequest)); discriminate.
  - apply (proj1 (proj2 (onMessage_replies shardDataRequest))
             (Worker.mkPayload sampleGroups 5 0));
      [reflexivity | reflexivity | left; discriminate].
  - apply (proj2 (proj2 (onMessage_replies getShardRequest))
             (Worker.mkPayload sampleGroups 5 1)); reflexivity.
Defined.
